(** * Entity filters of the catalog-react plugin

    A shallow embedding of [plugins/catalog-react/src/filters.ts] and the
    properties its specification states about the filter variants.

    JavaScript strings are sequences of UTF-16 code units; they are kept as
    lists of code units, so that [split(/\s/)], [includes] and [===] mean what
    they mean in the source.  Exceptions are explicit: a computation that may
    throw returns a [completion]. *)

From Stdlib Require Import NArith String Ascii.
From stdpp Require Import base option list gmap.

Local Open Scope N_scope.

(** ** JavaScript strings *)

Abbreviation jsstring := (list N).

(** An ASCII literal of the source, as code units. *)
Fixpoint lit (s : string) : jsstring :=
  match s with
  | EmptyString => []
  | String c s' => N_of_ascii c :: lit s'
  end.
Arguments lit _%_string.

(** The characters matched by the regular expression [/\s/]: ECMAScript's
    WhiteSpace and LineTerminator code points, all in the basic plane. *)
Definition isWhiteSpace (c : N) : bool :=
  (c =? 0x9) || (c =? 0xA) || (c =? 0xB) || (c =? 0xC) || (c =? 0xD)
  || (c =? 0x20) || (c =? 0xA0) || (c =? 0x1680)
  || ((0x2000 <=? c) && (c <=? 0x200A))
  || (c =? 0x2028) || (c =? 0x2029) || (c =? 0x202F) || (c =? 0x205F)
  || (c =? 0x3000) || (c =? 0xFEFF).

(** [s.split(re)] for a regular expression [re] that matches exactly one code
    unit, those satisfying [sep]: the pieces between matches, empty pieces
    included; the empty string gives one empty piece. *)
Fixpoint split (sep : N → bool) (s : jsstring) : list jsstring :=
  match s with
  | [] => [[]]
  | c :: s' =>
      if sep c then [] :: split sep s'
      else match split sep s' with
           | piece :: pieces => (c :: piece) :: pieces
           | [] => [[c]]
           end
  end.

(** [s.startsWith(w)] and [s.includes(w)]. *)
Fixpoint startsWith (s w : jsstring) {struct w} : bool :=
  match w, s with
  | [], _ => true
  | _ :: _, [] => false
  | c :: w', d :: s' => bool_decide (c = d) && startsWith s' w'
  end.

Fixpoint String_includes (s w : jsstring) : bool :=
  startsWith s w
  || match s with
     | [] => false
     | _ :: s' => String_includes s' w
     end.

(** [a.includes(v)] on an array of strings. *)
Definition Array_includes (a : list jsstring) (v : jsstring) : bool :=
  existsb (λ x, bool_decide (x = v)) a.

(** [b.toString()] and [String(b)] for a boolean. *)
Definition Boolean_toString (b : bool) : jsstring :=
  if b then lit "true" else lit "false".

(** ** Completions: a value, or a thrown exception *)

Variant exn := TypeError | Error.

Inductive completion (A : Type) : Type :=
  | Normal (a : A)
  | Throw (e : exn).
Arguments Normal {A} a.
Arguments Throw {A} e.

#[global] Instance completion_ret : MRet completion := λ A a, Normal a.
#[global] Instance completion_bind : MBind completion := λ A B f c,
  match c with
  | Normal a => f a
  | Throw e => Throw e
  end.

(** [try { body } catch (err) { handler }] *)
Definition try_catch {A} (body : completion A) (handler : exn → completion A)
  : completion A :=
  match body with
  | Normal a => Normal a
  | Throw e => handler e
  end.

(** [a.reduce(f, init)] with a callback that may throw. *)
Fixpoint reduce {A B} (f : B → A → completion B) (a : list A) (init : B)
  : completion B :=
  match a with
  | [] => Normal init
  | x :: a' => f init x ≫= reduce f a'
  end.

(** [a.map(f)] with a callback that may throw. *)
Fixpoint Array_map {A B} (f : A → completion B) (a : list A)
  : completion (list B) :=
  match a with
  | [] => Normal []
  | x :: a' => y ← f x; ys ← Array_map f a'; Normal (y :: ys)
  end.

(** [a.some(f)] with a callback that may throw: the elements are tried in
    order, up to the first for which [f] gives [true]. *)
Fixpoint Array_some {A} (f : A → completion bool) (a : list A)
  : completion bool :=
  match a with
  | [] => Normal false
  | x :: a' => b ← f x; if b : bool then Normal true else Array_some f a'
  end.

(** ** The catalog model

    The types of [@backstage/catalog-model] that the filters read; their
    declarations are not among the sources.  Optional properties are
    [option]s; [None] is JavaScript's [undefined]. *)

#[local] Set Warnings "-register-all".
(** Modelled from the spec: the values of the free-form [spec] mapping,
    JSON values ([JsonValue] of [@backstage/types]). *)
Inductive JsonValue : Type :=
  | JsonNull
  | JsonBoolean (b : bool)
  | JsonNumber (n : Z)
  | JsonString (s : jsstring)
  | JsonArray (a : list JsonValue)
  | JsonObject (o : list (jsstring * JsonValue)).

Module CompoundEntityRef.
(** Modelled from the spec: the Entity Reference, "a structured triple
    {kind, namespace, name}" ([CompoundEntityRef] of
    [@backstage/catalog-model]). *)
Record t := { kind : jsstring; namespace : jsstring; name : jsstring }.
End CompoundEntityRef.

(** Modelled from the spec: an entry of the relation list of an entity,
    [{type: string, targetRef: string}].  The target is a string; the catalog
    writes canonical references [kind:namespace/name] there, but any string is
    a well-typed target. *)
Record EntityRelation := {
  type : jsstring;
  targetRef : jsstring;
}.

(** Modelled from the spec: the [metadata] of an entity; [name] is required,
    the other fields may be absent. *)
Record EntityMeta := {
  name : jsstring;
  namespace : option jsstring;
  title : option jsstring;
  tags : option (list jsstring);
  annotations : option (gmap jsstring jsstring);
}.

(** Modelled from the spec: the items of [status.items], which "signal
    processing errors"; the filters only count them. *)
Record EntityStatusItem := {
  item_type : jsstring;
  item_level : jsstring;
  item_message : jsstring;
}.

(** Modelled from the spec: the [status] of an entity, with its optional
    [items]. *)
Record EntityStatus := { items : option (list EntityStatusItem) }.

(** Modelled from the spec: the [Entity] of the data model, with the [status]
    that [AlphaEntity] adds; [spec], [relations] and [status] may be
    absent. *)
Record Entity := {
  apiVersion : jsstring;
  kind : jsstring;
  metadata : EntityMeta;
  spec : option (gmap jsstring JsonValue);
  relations : option (list EntityRelation);
  status : option EntityStatus;
}.

(** What [filters.ts] imports from [@backstage/catalog-model] and [./utils],
    neither among the sources: the filters are parametric in them.
    [parseEntityRef] throws on a reference it cannot parse.  The relation
    lookup turns the target strings of an entity into references and may
    throw as well; the filters call it outside any [try].
    [stringifyEntityRef] writes the three parts of a reference out and has no
    error case. *)
Class CatalogModel := {
  parseEntityRef : jsstring → jsstring → completion CompoundEntityRef.t;
  stringifyEntityRef : CompoundEntityRef.t → jsstring;
  getEntityRelations :
    Entity → jsstring → completion (list CompoundEntityRef.t);
}.

(** [s.toLocaleUpperCase('en-US')], a built-in of the host. *)
Class Locale := toLocaleUpperCase : jsstring → jsstring.

(** Modelled from the spec: the constant [RELATION_OWNED_BY] of
    [@backstage/catalog-model], the relation type the spec writes "ownedBy". *)
Definition RELATION_OWNED_BY : jsstring := lit "ownedBy".

(** ** Values of [Record<string, string | string[]>] *)

Inductive FilterValue : Type :=
  | OneString (s : jsstring)
  | ManyStrings (a : list jsstring).

(** ** JavaScript operators on possibly-undefined operands *)

(** [a === b] with [b] a string: [undefined] equals no string. *)
Definition strict_eq (a : option jsstring) (b : jsstring) : bool :=
  bool_decide (a = Some b).

(** [n > m] with [n] possibly [undefined]: [undefined] converts to [NaN],
    and every comparison with [NaN] is false. *)
Definition number_gt (n : option nat) (m : nat) : bool :=
  match n with
  | Some n => bool_decide (m < n)%nat
  | None => false
  end.

(** ** The filters *)

Module EntityKindFilter.
Record t := { value : jsstring }.

Definition getCatalogFilters (this : t) : gmap jsstring FilterValue :=
  {[ lit "kind" := OneString this.(value) ]}.

Definition toQueryValue (this : t) : jsstring := this.(value).
End EntityKindFilter.

Module EntityTypeFilter.
(** [value: string | string[]] *)
Record t := { value : FilterValue }.

Definition getTypes (this : t) : list jsstring :=
  match this.(value) with
  | ManyStrings a => a
  | OneString s => [s]
  end.

Definition getCatalogFilters (this : t) : gmap jsstring FilterValue :=
  {[ lit "spec.type" := ManyStrings (getTypes this) ]}.

Definition toQueryValue (this : t) : list jsstring := getTypes this.
End EntityTypeFilter.

Module EntityTagFilter.
Record t := { values : list jsstring }.

Definition filterEntity (this : t) (entity : Entity) : bool :=
  forallb (λ v, Array_includes (default [] entity.(metadata).(tags)) v)
    this.(values).

Definition getCatalogFilters (this : t) : gmap jsstring FilterValue :=
  {[ lit "metadata.tags" := ManyStrings this.(values) ]}.

Definition toQueryValue (this : t) : list jsstring := this.(values).
End EntityTagFilter.

Module EntityTextFilter.
Record t := { value : jsstring }.

(** An element of an [Array<string | string[] | undefined>]. *)
Inductive item : Type :=
  | Str (s : jsstring)
  | Arr (a : list jsstring)
  | Undefined.

Definition of_string (s : option jsstring) : item :=
  match s with Some s => Str s | None => Undefined end.

Definition of_array (a : option (list jsstring)) : item :=
  match a with Some a => Arr a | None => Undefined end.

(** [value.flat()]: arrays are spliced in, every other element stays. *)
Definition flat (value : list item) : list (option jsstring) :=
  x ← value;
  match x with
  | Str s => [Some s]
  | Arr a => Some <$> a
  | Undefined => [None]
  end.

(** [Boolean(m)]: [undefined] and the empty string are falsy. *)
Definition Boolean (m : option jsstring) : bool :=
  match m with
  | Some (_ :: _) => true
  | Some [] | None => false
  end.

Section methods.
Context `{Locale}.

(** [m.toLocaleUpperCase('en-US')]: a [TypeError] when [m] is
    [undefined]. *)
Definition call_toLocaleUpperCase (m : option jsstring)
  : completion jsstring :=
  match m with
  | Some s => Normal (toLocaleUpperCase s)
  | None => Throw TypeError
  end.

Definition toUpperArray (value : list item) : completion (list jsstring) :=
  Array_map call_toLocaleUpperCase
    (filter (λ m, Boolean m) (flat value)).

(** The [for (const word of words)] loop and the [return true] after it. *)
Fixpoint for_words (exactMatch partialMatch words : list jsstring) : bool :=
  match words with
  | [] => true
  | word :: words' =>
      if forallb (λ m, negb (bool_decide (m = word))) exactMatch
         && forallb (λ m, negb (String_includes m word)) partialMatch
      then false
      else for_words exactMatch partialMatch words'
  end.

Definition filterEntity (this : t) (entity : Entity) : completion bool :=
  words ← toUpperArray (Str <$> split isWhiteSpace this.(value));
  exactMatch ← toUpperArray [of_array entity.(metadata).(tags)];
  partialMatch ← toUpperArray
    [Str entity.(metadata).(name); of_string entity.(metadata).(title)];
  Normal (for_words exactMatch partialMatch words).
End methods.
End EntityTextFilter.

Module EntityOwnerFilter.
Record t := { values : list jsstring }.

Section methods.
Context `{CatalogModel}.

Definition new (values : list jsstring) : completion t :=
  fullRefs ← reduce
    (λ fullRefs ref,
       try_catch
         (r ← parseEntityRef ref (lit "Group");
          Normal (fullRefs ++ [stringifyEntityRef r]))
         (λ err, Normal fullRefs))
    values [];
  Normal {| values := fullRefs |}.

Definition getCatalogFilters (this : t) : gmap jsstring FilterValue :=
  {[ lit "relations.ownedBy" := ManyStrings this.(values) ]}.

Definition filterEntity (this : t) (entity : Entity) : completion bool :=
  Array_some
    (λ v, owners ← getEntityRelations entity RELATION_OWNED_BY;
          Normal (existsb (λ o, bool_decide (stringifyEntityRef o = v)) owners))
    this.(values).

Definition toQueryValue (this : t) : list jsstring := this.(values).
End methods.
End EntityOwnerFilter.

Module EntityLifecycleFilter.
Record t := { values : list jsstring }.

Definition getCatalogFilters (this : t) : gmap jsstring FilterValue :=
  {[ lit "spec.lifecycle" := ManyStrings this.(values) ]}.

(** [entity.spec?.lifecycle], as a string when it is one. *)
Definition lifecycle (entity : Entity) : option jsstring :=
  match entity.(spec) ≫= (.!! lit "lifecycle") with
  | Some (JsonString s) => Some s
  | _ => None
  end.

Definition filterEntity (this : t) (entity : Entity) : bool :=
  existsb (λ v, strict_eq (lifecycle entity) v) this.(values).

Definition toQueryValue (this : t) : list jsstring := this.(values).
End EntityLifecycleFilter.

Module EntityNamespaceFilter.
Record t := { values : list jsstring }.

Definition getCatalogFilters (this : t) : gmap jsstring FilterValue :=
  {[ lit "spec.lifecycle" := ManyStrings this.(values) ]}.

Definition filterEntity (this : t) (entity : Entity) : bool :=
  existsb (λ v, strict_eq entity.(metadata).(namespace) v) this.(values).

Definition toQueryValue (this : t) : list jsstring := this.(values).
End EntityNamespaceFilter.

Module UserListFilter.
Record t := {
  value : jsstring;
  isOwnedEntity : Entity → bool;
  isStarredEntity : Entity → bool;
}.

Definition filterEntity (this : t) (entity : Entity) : bool :=
  if bool_decide (this.(value) = lit "owned") then this.(isOwnedEntity) entity
  else if bool_decide (this.(value) = lit "starred")
       then this.(isStarredEntity) entity
       else true.

Definition toQueryValue (this : t) : jsstring := this.(value).
End UserListFilter.

Module EntityOrphanFilter.
Record t := { value : bool }.

Definition getCatalogFilters (this : t) : gmap jsstring FilterValue :=
  {[ lit "metadata.annotations.backstage.io/orphan" :=
       OneString (Boolean_toString this.(value)) ]}.

Definition filterEntity (this : t) (entity : Entity) : bool :=
  let orphan :=
    entity.(metadata).(annotations) ≫= (.!! lit "backstage.io/orphan") in
  negb (bool_decide (orphan = None))
  && strict_eq orphan (Boolean_toString this.(value)).
End EntityOrphanFilter.

Module EntityErrorFilter.
Record t := { value : bool }.

Definition filterEntity (this : t) (entity : Entity) : bool :=
  let error :=
    number_gt (length <$> (entity.(status) ≫= items)) 0 in
  (* [error !== undefined]: [error] is a boolean *)
  true && Bool.eqb this.(value) error.
End EntityErrorFilter.

(** ** The [EntityFilter] interface

    [filterEntity] is an optional method of the interface: [None] for a
    variant that does not have it.  A call goes to the variant's own method. *)

Inductive EntityFilter : Type :=
  | KindFilter (f : EntityKindFilter.t)
  | TypeFilter (f : EntityTypeFilter.t)
  | TagFilter (f : EntityTagFilter.t)
  | TextFilter (f : EntityTextFilter.t)
  | OwnerFilter (f : EntityOwnerFilter.t)
  | LifecycleFilter (f : EntityLifecycleFilter.t)
  | NamespaceFilter (f : EntityNamespaceFilter.t)
  | UserList (f : UserListFilter.t)
  | OrphanFilter (f : EntityOrphanFilter.t)
  | ErrorFilter (f : EntityErrorFilter.t).

Definition filterEntity `{Locale, CatalogModel}
    (filter : EntityFilter) (entity : Entity) : option (completion bool) :=
  match filter with
  | KindFilter _ | TypeFilter _ => None
  | TagFilter f => Some (Normal (EntityTagFilter.filterEntity f entity))
  | TextFilter f => Some (EntityTextFilter.filterEntity f entity)
  | OwnerFilter f => Some (EntityOwnerFilter.filterEntity f entity)
  | LifecycleFilter f =>
      Some (Normal (EntityLifecycleFilter.filterEntity f entity))
  | NamespaceFilter f =>
      Some (Normal (EntityNamespaceFilter.filterEntity f entity))
  | UserList f => Some (Normal (UserListFilter.filterEntity f entity))
  | OrphanFilter f => Some (Normal (EntityOrphanFilter.filterEntity f entity))
  | ErrorFilter f => Some (Normal (EntityErrorFilter.filterEntity f entity))
  end.

(** ** The reference normalizer and the relation lookup of the specification *)

Module SpecModel.

(** Modelled from the spec: the namespace a reference without one gets, the
    "well-known value" of the data model; [DEFAULT_NAMESPACE] of
    [@backstage/catalog-model] is not among the sources. *)
Definition DEFAULT_NAMESPACE : jsstring := lit "default".

(** Modelled from the spec: the characters a part of a reference may hold.
    The specification rejects "invalid characters" without listing them; the
    model takes the alphabet of catalog names: letters, digits, [-], [_]
    and [.]. *)
Definition isRefChar (c : N) : bool :=
  ((0x41 <=? c) && (c <=? 0x5A)) || ((0x61 <=? c) && (c <=? 0x7A))
  || ((0x30 <=? c) && (c <=? 0x39))
  || (c =? 0x2D) || (c =? 0x5F) || (c =? 0x2E).

(** Modelled from the spec: a part of a reference is not empty and holds
    valid characters only. *)
Definition validPart (s : jsstring) : bool :=
  negb (bool_decide (s = [])) && forallb isRefChar s.

(** Modelled from the spec: the reference of three parts, or the parse
    error when one of them is not valid. *)
Definition makeRef (kind namespace name : jsstring)
  : completion CompoundEntityRef.t :=
  if validPart kind && validPart namespace && validPart name
  then Normal (CompoundEntityRef.Build_t kind namespace name)
  else Throw Error.

(** Modelled from the spec: [parseEntityRef] of [@backstage/catalog-model],
    the parsing half of the Entity Reference Normalizer.  A reference is a
    bare [name], [namespace/name] or [kind:namespace/name]; a missing kind
    is [defaultKind], a missing namespace the default one; anything else,
    and a part with a character outside the alphabet, is a parse error. *)
Definition parseEntityRef (ref defaultKind : jsstring)
  : completion CompoundEntityRef.t :=
  match split (N.eqb 0x3A) ref with
  | [rest] =>
      match split (N.eqb 0x2F) rest with
      | [name] => makeRef defaultKind DEFAULT_NAMESPACE name
      | [namespace; name] => makeRef defaultKind namespace name
      | _ => Throw Error
      end
  | [kind; rest] =>
      match split (N.eqb 0x2F) rest with
      | [namespace; name] => makeRef kind namespace name
      | _ => Throw Error
      end
  | _ => Throw Error
  end.

(** Modelled from the spec: the case normalization of the canonical string,
    lower-casing of the letters [A]-[Z]. *)
Definition toLowerCase (s : jsstring) : jsstring :=
  (λ c, if (0x41 <=? c) && (c <=? 0x5A) then c + 0x20 else c) <$> s.

(** Modelled from the spec: [stringifyEntityRef] of
    [@backstage/catalog-model], the canonical string [kind:namespace/name] of
    a reference, in which letter case does not count. *)
Definition stringifyEntityRef (ref : CompoundEntityRef.t) : jsstring :=
  toLowerCase ref.(CompoundEntityRef.kind) ++ lit ":"
  ++ toLowerCase ref.(CompoundEntityRef.namespace) ++ lit "/"
  ++ toLowerCase ref.(CompoundEntityRef.name).

(** Modelled from the spec: the reading of a relation target, a canonical
    reference [kind:namespace/name], by the rules of the normalizer.  There
    is no default kind here: a target of any other form, and a part with a
    character outside the alphabet, is a parse error. *)
Definition parseTargetRef (targetRef : jsstring)
  : completion CompoundEntityRef.t :=
  match split (N.eqb 0x3A) targetRef with
  | [kind; rest] =>
      match split (N.eqb 0x2F) rest with
      | [namespace; name] => makeRef kind namespace name
      | _ => Throw Error
      end
  | _ => Throw Error
  end.

(** Modelled from the spec: [getEntityRelations] of [./utils], the Relation
    Lookup: the target of every relation whose type is [relationType], in
    the order of the relation list; an absent list behaves as empty.  The
    targets are strings and the filter stringifies what the lookup returns,
    so the lookup reads each target as a reference; on canonical targets it
    has no error case, and the parse error of a target that is no reference
    is not caught. *)
Definition getEntityRelations (entity : Entity) (relationType : jsstring)
  : completion (list CompoundEntityRef.t) :=
  Array_map (λ r, parseTargetRef r.(targetRef))
    (filter (λ r, r.(type) = relationType) (default [] entity.(relations))).

(** The three together. *)
Definition catalogModel : CatalogModel :=
  Build_CatalogModel parseEntityRef stringifyEntityRef getEntityRelations.

End SpecModel.

(** ** An upper-casing to run the text filter with

    [toLocaleUpperCase('en-US')] on ASCII text: the letters [a]-[z] go to
    [A]-[Z], every other code unit stays. *)

Definition asciiUpperCase : Locale :=
  fmap (M := list) (λ c, if (0x61 <=? c) && (c <=? 0x7A) then c - 0x20 else c).

(** ** The properties, in the words of the specification *)

(** The tokens of a text: the non-empty pieces between whitespace. *)
Definition tokens (text : jsstring) : list jsstring :=
  filter (λ piece, piece ≠ []) (split isWhiteSpace text).

(** The strings an array holds once [undefined] and the empty string are
    filtered out. *)
Definition truthy_strings (a : list (option jsstring)) : list jsstring :=
  filter (λ s, s ≠ []) (omap id a).

(** [w] occurs in [s]. *)
Definition substring (w s : jsstring) : Prop := ∃ l r, s = l ++ w ++ r.

Section ignoring_case.
Context `{Locale}.

Definition equal_ignoring_case (a b : jsstring) : Prop :=
  toLocaleUpperCase a = toLocaleUpperCase b.

Definition substring_ignoring_case (w s : jsstring) : Prop :=
  substring (toLocaleUpperCase w) (toLocaleUpperCase s).

(** A token matches an entity: it is one of the tags, or occurs in the name
    or in the title. *)
Definition token_matches (entity : Entity) (token : jsstring) : Prop :=
  (∃ tag, tag ∈ default [] entity.(metadata).(tags)
          ∧ equal_ignoring_case token tag)
  ∨ substring_ignoring_case token entity.(metadata).(name)
  ∨ (∃ s, entity.(metadata).(title) = Some s
          ∧ substring_ignoring_case token s).
End ignoring_case.

(** The normal form of a raw owner reference, when it parses. *)
Definition normalize `{CatalogModel} (defaultKind ref : jsstring)
  : option jsstring :=
  match parseEntityRef ref defaultKind with
  | Normal r => Some (stringifyEntityRef r)
  | Throw _ => None
  end.

(** The value of the orphan annotation of an entity, when it carries one. *)
Definition orphan_annotation (entity : Entity) : option jsstring :=
  match entity.(metadata).(annotations) with
  | Some a => a !! lit "backstage.io/orphan"
  | None => None
  end.

(** The entity has a non-empty list of status items. *)
Definition has_status_items (entity : Entity) : Prop :=
  ∃ st its, entity.(status) = Some st ∧ st.(items) = Some its ∧ its ≠ [].

(** ** Entities for the examples *)

Definition entity_of (n : string) (ts : option (list jsstring)) : Entity := {|
  apiVersion := lit "backstage.io/v1alpha1";
  kind := lit "Component";
  metadata := {|
    name := lit n; namespace := None; title := None; tags := ts;
    annotations := None |};
  spec := None;
  relations := None;
  status := None;
|}.

Definition with_annotations (a : gmap jsstring jsstring) (e : Entity) : Entity := {|
  apiVersion := e.(apiVersion);
  kind := e.(kind);
  metadata := {|
    name := e.(metadata).(name); namespace := e.(metadata).(namespace);
    title := e.(metadata).(title); tags := e.(metadata).(tags);
    annotations := Some a |};
  spec := e.(spec);
  relations := e.(relations);
  status := e.(status);
|}.

Definition with_relations (rs : list EntityRelation) (e : Entity) : Entity := {|
  apiVersion := e.(apiVersion);
  kind := e.(kind);
  metadata := e.(metadata);
  spec := e.(spec);
  relations := Some rs;
  status := e.(status);
|}.

Definition with_status_items (its : list EntityStatusItem) (e : Entity) : Entity := {|
  apiVersion := e.(apiVersion);
  kind := e.(kind);
  metadata := e.(metadata);
  spec := e.(spec);
  relations := e.(relations);
  status := Some {| items := Some its |};
|}.

Definition a_status_item : EntityStatusItem := {|
  item_type := lit "backstage.io/catalog-processing";
  item_level := lit "error";
  item_message := lit "processing failed";
|}.

(** The reference [group:default/team-a], as the target of a relation. *)
Definition team_a : jsstring := lit "group:default/team-a".

(** * Proofs *)

(** ** Strings *)

Lemma split_not_nil sep s : split sep s ≠ [].
Proof.
  destruct s as [|c s]; simpl; [done|].
  destruct (sep c); [done|]. by destruct (split sep s).
Qed.

Lemma split_cons_other sep c s :
  sep c = false →
  ∃ piece pieces, split sep s = piece :: pieces
                  ∧ split sep (c :: s) = (c :: piece) :: pieces.
Proof.
  intros Hc. simpl. rewrite Hc.
  destruct (split sep s) as [|piece pieces] eqn:Hs.
  - by destruct (split_not_nil sep s).
  - by exists piece, pieces.
Qed.

(** No piece holds a separator. *)
Lemma split_pieces_clean sep s :
  Forall (Forall (λ c, sep c = false)) (split sep s).
Proof.
  induction s as [|c s IH].
  - by repeat constructor.
  - destruct (sep c) eqn:Hc.
    + simpl. rewrite Hc. by constructor.
    + destruct (split_cons_other sep c s Hc) as (piece & pieces & Hs & ->).
      rewrite Hs in IH. apply Forall_cons in IH as [Hpiece Hpieces].
      constructor; [by constructor | done].
Qed.

(** The pieces are one more than the separators. *)
Lemma split_length sep s :
  length (split sep s) = S (length (filter (λ c, sep c = true) s)).
Proof.
  induction s as [|c s IH]; [done|].
  destruct (sep c) eqn:Hc.
  - rewrite filter_cons_True by done. simpl. rewrite Hc. simpl. by rewrite IH.
  - rewrite filter_cons_False by congruence.
    destruct (split_cons_other sep c s Hc) as (piece & pieces & Hs & ->).
    by rewrite <- IH, Hs.
Qed.

Lemma split_separators_only sep s :
  Forall (λ c, sep c = true) s → Forall (λ piece, piece = []) (split sep s).
Proof.
  induction 1 as [|c s Hc _ IH]; simpl.
  - by constructor.
  - rewrite Hc. by constructor.
Qed.

Lemma startsWith_prefix s w : startsWith s w = true ↔ ∃ r, s = w ++ r.
Proof.
  revert s. induction w as [|c w IH]; intros s; simpl.
  - split; [by exists s | done].
  - destruct s as [|d s].
    + split; [done | by intros [r ?]].
    + rewrite andb_true_iff, bool_decide_eq_true, IH. split.
      * intros [-> [r ->]]. by exists r.
      * intros [r [= -> ->]]. eauto.
Qed.

Lemma String_includes_substring s w :
  String_includes s w = true ↔ substring w s.
Proof.
  unfold substring. induction s as [|d s IH]; simpl.
  - rewrite orb_false_r, startsWith_prefix. split.
    + intros [r ->]. by exists [], r.
    + intros (l & r & Heq). symmetry in Heq.
      apply app_eq_nil in Heq as [-> Heq]. exists r. by rewrite Heq.
  - rewrite orb_true_iff, IH, startsWith_prefix. split.
    + intros [[r ->] | (l & r & ->)].
      * by exists [], r.
      * by exists (d :: l), r.
    + intros ([|d' l] & r & Heq); simpl in Heq.
      * left. by exists r.
      * right. injection Heq as -> ->. by exists l, r.
Qed.

Lemma substring_nil_r w : substring w [] → w = [].
Proof.
  intros (l & r & Heq). symmetry in Heq.
  apply app_eq_nil in Heq as [_ Heq]. by apply app_eq_nil in Heq as [-> _].
Qed.

Lemma forallb_negb_false {A} (f : A → bool) (l : list A) :
  forallb (λ x, negb (f x)) l = false ↔ ∃ x, x ∈ l ∧ f x = true.
Proof.
  induction l as [|y l IH]; simpl.
  - split; [done|]. intros (x & Hx & _). by apply elem_of_nil in Hx.
  - rewrite andb_false_iff, negb_false_iff, IH. split.
    + intros [Hy | (x & Hx & Hfx)].
      * exists y. split; [by left | done].
      * exists x. split; [by right | done].
    + intros (x & [->|Hx]%elem_of_cons & Hfx); [by left|].
      right. by exists x.
Qed.

Lemma Array_includes_elem_of a v : Array_includes a v = true ↔ v ∈ a.
Proof.
  unfold Array_includes. rewrite <- Is_true_true, existb_True, Exists_exists.
  split.
  - intros (x & Hx & Heq). apply bool_decide_spec in Heq. by subst.
  - intros Hv. exists v. split; [done|]. by apply bool_decide_spec.
Qed.

(** ** The text filter *)

Section text_filter.
Context `{Locale}.
Import EntityTextFilter.

(** After [filter(Boolean)] no [undefined] is left for [toLocaleUpperCase] to
    be called on: the [map] never throws. *)
Lemma Array_map_upper_filter a :
  Array_map call_toLocaleUpperCase (filter (λ m, Boolean m) a)
  = Normal (toLocaleUpperCase <$> truthy_strings a).
Proof.
  unfold truthy_strings. induction a as [|[[|c s]|] a IH]; [done|..].
  - rewrite filter_cons_False by (cbn; tauto). cbn [omap list_omap id].
    by rewrite filter_cons_False by (cbn; tauto).
  - rewrite filter_cons_True by done. cbn [omap list_omap id].
    rewrite filter_cons_True by done. cbn. by rewrite IH.
  - by rewrite filter_cons_False by (cbn; tauto).
Qed.

Lemma toUpperArray_normal value :
  toUpperArray value
  = Normal (toLocaleUpperCase <$> truthy_strings (flat value)).
Proof. apply Array_map_upper_filter. Qed.

Lemma flat_strings pieces : omap id (flat (Str <$> pieces)) = pieces.
Proof.
  unfold flat. induction pieces as [|p pieces IH]; [done|].
  cbn. f_equal. apply IH.
Qed.

Lemma omap_id_Some {A} (l : list A) : omap id (Some <$> l) = l.
Proof. induction l as [|x l IH]; [done|]. cbn. by f_equal. Qed.

Lemma flat_tags ts : omap id (flat [of_array ts]) = default [] ts.
Proof.
  destruct ts as [ts|]; cbn; [|done].
  by rewrite app_nil_r, omap_id_Some.
Qed.

Lemma flat_name_title n ti :
  omap id (flat [Str n; of_string ti]) = n :: option_list ti.
Proof. by destruct ti. Qed.

Lemma words_tokens text :
  toUpperArray (Str <$> split isWhiteSpace text)
  = Normal (toLocaleUpperCase <$> tokens text).
Proof.
  rewrite toUpperArray_normal. unfold truthy_strings, tokens.
  by rewrite flat_strings.
Qed.

Lemma filterEntity_unfold this entity :
  filterEntity this entity
  = Normal
      (for_words
         (toLocaleUpperCase <$>
            filter (λ s, s ≠ []) (default [] entity.(metadata).(tags)))
         (toLocaleUpperCase <$>
            filter (λ s, s ≠ [])
              (entity.(metadata).(name)
                 :: option_list entity.(metadata).(title)))
         (toLocaleUpperCase <$> tokens this.(value))).
Proof.
  unfold filterEntity. rewrite words_tokens, !toUpperArray_normal.
  unfold truthy_strings. by rewrite flat_tags, flat_name_title.
Qed.

Lemma for_words_true exactMatch partialMatch words :
  for_words exactMatch partialMatch words = true
  ↔ ∀ word, word ∈ words →
      word ∈ exactMatch ∨ ∃ m, m ∈ partialMatch ∧ substring word m.
Proof.
  induction words as [|word words IH]; simpl.
  - split; [|done]. intros _ w Hw. by apply elem_of_nil in Hw.
  - set (miss := forallb _ exactMatch && forallb _ partialMatch).
    assert (miss = false
            ↔ word ∈ exactMatch ∨ ∃ m, m ∈ partialMatch ∧ substring word m)
      as Hmiss.
    { subst miss. rewrite andb_false_iff, !forallb_negb_false. split.
      - intros [(m & Hm & Heq) | (m & Hm & Hinc)].
        + left. apply bool_decide_eq_true in Heq. by subst.
        + right. exists m. by rewrite <- String_includes_substring.
      - intros [Hin | (m & Hm & Hsub)].
        + left. exists word. by rewrite bool_decide_eq_true.
        + right. exists m. by rewrite String_includes_substring. }
    destruct miss.
    + split; [done|]. intros Hall.
      assert (true = false) as Habs; [|done].
      apply Hmiss, Hall. by left.
    + rewrite IH. split.
      * intros Hall w [->|Hw]%elem_of_cons; [by apply Hmiss | by apply Hall].
      * intros Hall w Hw. apply Hall. by right.
Qed.
End text_filter.

Section text_filter_tokens.
Context `{Locale}.
Hypothesis upper_nil : ∀ s, toLocaleUpperCase s = [] ↔ s = [].

Lemma upper_not_nil s : s ≠ [] → toLocaleUpperCase s ≠ [].
Proof. intros Hs Hu. by apply Hs, upper_nil. Qed.

Lemma substring_upper_not_nil token s :
  token ≠ [] → substring_ignoring_case token s → s ≠ [].
Proof.
  intros Htoken Hsub ->. unfold substring_ignoring_case in Hsub.
  rewrite (proj2 (upper_nil [])) in Hsub by done.
  apply substring_nil_r in Hsub. by apply Htoken, upper_nil.
Qed.

(** What the loop body asks of one word is what the specification asks of
    the token it is the upper-casing of. *)
Lemma word_matches entity token :
  token ≠ [] →
  (toLocaleUpperCase token
     ∈ toLocaleUpperCase <$>
         filter (λ s, s ≠ []) (default [] entity.(metadata).(tags))
   ∨ ∃ m, m ∈ toLocaleUpperCase <$>
            filter (λ s, s ≠ [])
              (entity.(metadata).(name)
                 :: option_list entity.(metadata).(title))
          ∧ substring (toLocaleUpperCase token) m)
  ↔ token_matches entity token.
Proof.
  intros Htoken. unfold token_matches. split.
  - intros [Htag | (m & Hm & Hsub)].
    + apply list_elem_of_fmap in Htag as (tag & Heq & Htag).
      apply list_elem_of_filter in Htag as [_ Htag]. left. by exists tag.
    + apply list_elem_of_fmap in Hm as (s & -> & Hs).
      apply list_elem_of_filter in Hs as [_ Hs]. right.
      apply elem_of_cons in Hs as [-> | Hs]; [by left|]. right.
      destruct (title (metadata entity)) as [ti|]; simpl in Hs.
      * apply list_elem_of_singleton in Hs as ->. by exists ti.
      * by apply elem_of_nil in Hs.
  - intros [(tag & Htag & Heq) | [Hname | (ti & Hti & Hsub)]].
    + left. apply list_elem_of_fmap. exists tag. split; [done|].
      apply list_elem_of_filter. split; [|done].
      intros ->. apply (upper_not_nil token Htoken).
      rewrite Heq. by apply upper_nil.
    + right. exists (toLocaleUpperCase (name (metadata entity))).
      split; [|done]. apply list_elem_of_fmap_2, list_elem_of_filter.
      split; [by eapply substring_upper_not_nil | by left].
    + right. exists (toLocaleUpperCase ti).
      split; [|done]. apply list_elem_of_fmap_2, list_elem_of_filter.
      split; [by eapply substring_upper_not_nil|].
      rewrite Hti. right. by left.
Qed.

Lemma filterEntity_true_iff this entity :
  EntityTextFilter.filterEntity this entity = Normal true
  ↔ ∀ token, token ∈ tokens this.(EntityTextFilter.value) →
      token_matches entity token.
Proof.
  rewrite filterEntity_unfold. split.
  - intros [= Hloop] token Htoken.
    assert (token ≠ []) as Hne
      by (by apply list_elem_of_filter in Htoken as [? _]).
    apply word_matches; [done|].
    eapply for_words_true; [done|]. by apply list_elem_of_fmap_2.
  - intros Hall. f_equal. apply for_words_true.
    intros word (token & -> & Htoken)%list_elem_of_fmap.
    assert (token ≠ []) as Hne
      by (by apply list_elem_of_filter in Htoken as [? _]).
    apply word_matches; auto.
Qed.

(** The empty piece that [split] leaves between two whitespace characters
    occurs in every name: counting it as a token changes nothing. *)
Lemma every_piece_every_token entity text :
  (∀ piece, piece ∈ split isWhiteSpace text → token_matches entity piece)
  ↔ (∀ token, token ∈ tokens text → token_matches entity token).
Proof.
  split.
  - intros Hall token [_ Htoken]%list_elem_of_filter. by apply Hall.
  - intros Hall piece Hpiece. destruct piece as [|c piece].
    + right. left. unfold substring_ignoring_case.
      rewrite (proj2 (upper_nil [])) by done.
      by exists [], (toLocaleUpperCase (name (metadata entity))).
    + apply Hall, list_elem_of_filter. by split.
Qed.
End text_filter_tokens.

(** C1: the text filter accepts an entity exactly when every token of the
    text, taken between whitespace, equals one of the entity's tags or occurs
    in its name or title, letter case aside (both sides upper-cased); one
    token that does neither rejects the entity.  It is the same whether the
    empty pieces of the split count as tokens or not.  The upper-casing of
    the host is any function that keeps the empty string, and only it,
    empty. *)
Theorem EntityTextFilter_filterEntity_every_token `{Locale}
    (upper_nil : ∀ s, toLocaleUpperCase s = [] ↔ s = [])
    (this : EntityTextFilter.t) (entity : Entity) :
  ∃ b, EntityTextFilter.filterEntity this entity = Normal b
       ∧ (b = true
          ↔ ∀ token, token ∈ tokens this.(EntityTextFilter.value) →
              token_matches entity token)
       ∧ (b = true
          ↔ ∀ piece,
              piece ∈ split isWhiteSpace this.(EntityTextFilter.value) →
              token_matches entity piece)
       ∧ (∀ token, token ∈ tokens this.(EntityTextFilter.value) →
            ¬ token_matches entity token → b = false).
Proof.
  pose proof (filterEntity_true_iff upper_nil this entity) as Hiff.
  rewrite filterEntity_unfold in *.
  eexists. split; [done|]. split; [|split].
  - rewrite <- Hiff. split; congruence.
  - rewrite (every_piece_every_token upper_nil), <- Hiff. split; congruence.
  - intros token Htoken Hno. apply not_true_is_false. intros Hb.
    apply Hno. rewrite Hb in Hiff. by apply Hiff.
Qed.

Lemma asciiUpperCase_nil s : asciiUpperCase s = [] ↔ s = [].
Proof. unfold asciiUpperCase. by destruct s. Qed.

(** The text [web] against an entity named [svc] whose one tag is [webhook]:
    the token is a proper part of the tag and the entity is rejected. *)
Lemma EntityTextFilter_filterEntity_every_token_witness :
  (∀ s, asciiUpperCase s = [] ↔ s = [])
  ∧ ∃ b, EntityTextFilter.filterEntity (H := asciiUpperCase)
           {| EntityTextFilter.value := lit "web" |}
           (entity_of "svc" (Some [lit "webhook"])) = Normal b
         ∧ (b = true
            ↔ ∀ token, token ∈ tokens (lit "web") →
                token_matches (H := asciiUpperCase)
                  (entity_of "svc" (Some [lit "webhook"])) token)
         ∧ (b = true
            ↔ ∀ piece, piece ∈ split isWhiteSpace (lit "web") →
                token_matches (H := asciiUpperCase)
                  (entity_of "svc" (Some [lit "webhook"])) piece)
         ∧ (∀ token, token ∈ tokens (lit "web") →
              ¬ token_matches (H := asciiUpperCase)
                  (entity_of "svc" (Some [lit "webhook"])) token →
              b = false).
Proof.
  split; [exact asciiUpperCase_nil|].
  exact (EntityTextFilter_filterEntity_every_token (H := asciiUpperCase)
           asciiUpperCase_nil {| EntityTextFilter.value := lit "web" |}
           (entity_of "svc" (Some [lit "webhook"]))).
Defined.

Example text_web_against_tag_webhook :
  EntityTextFilter.filterEntity (H := asciiUpperCase)
    {| EntityTextFilter.value := lit "web" |}
    (entity_of "svc" (Some [lit "webhook"])) = Normal false.
Proof. reflexivity. Qed.

Example text_web_against_name :
  EntityTextFilter.filterEntity (H := asciiUpperCase)
    {| EntityTextFilter.value := lit "web" |}
    (entity_of "My-Web-Shop" (Some [lit "webhook"])) = Normal true.
Proof. reflexivity. Qed.

Example text_two_tokens :
  EntityTextFilter.filterEntity (H := asciiUpperCase)
    {| EntityTextFilter.value := lit "java  shop" |}
    (entity_of "My-Web-Shop" (Some [lit "Java"; lit "webhook"])) = Normal true
  ∧ EntityTextFilter.filterEntity (H := asciiUpperCase)
      {| EntityTextFilter.value := lit "java av" |}
      (entity_of "My-Web-Shop" (Some [lit "Java"; lit "webhook"]))
    = Normal false.
Proof. split; reflexivity. Qed.

(** C7: a text that is empty or all whitespace has no token, the filter gets
    no word from it, and it accepts every entity. *)
Theorem EntityTextFilter_blank_text_accepts_all `{Locale}
    (this : EntityTextFilter.t) (entity : Entity) :
  Forall (λ c, isWhiteSpace c = true) this.(EntityTextFilter.value) →
  tokens this.(EntityTextFilter.value) = []
  ∧ EntityTextFilter.toUpperArray
      (EntityTextFilter.Str <$>
         split isWhiteSpace this.(EntityTextFilter.value)) = Normal []
  ∧ EntityTextFilter.filterEntity this entity = Normal true.
Proof.
  intros Hblank.
  assert (tokens this.(EntityTextFilter.value) = []) as Htokens.
  { unfold tokens. apply split_separators_only in Hblank.
    induction Hblank as [|piece pieces -> _ IH]; [done|].
    by rewrite filter_cons_False by tauto. }
  split; [done|]. split.
  - by rewrite words_tokens, Htokens.
  - by rewrite filterEntity_unfold, Htokens.
Qed.

(** A space, a tab and an ideographic space. *)
Lemma EntityTextFilter_blank_text_accepts_all_witness :
  Forall (λ c, isWhiteSpace c = true) [0x20; 0x9; 0x3000]
  ∧ tokens [0x20; 0x9; 0x3000] = []
  ∧ EntityTextFilter.toUpperArray (H := asciiUpperCase)
      (EntityTextFilter.Str <$> split isWhiteSpace [0x20; 0x9; 0x3000])
    = Normal []
  ∧ EntityTextFilter.filterEntity (H := asciiUpperCase)
      {| EntityTextFilter.value := [0x20; 0x9; 0x3000] |}
      (entity_of "svc" None) = Normal true.
Proof.
  assert (Forall (λ c, isWhiteSpace c = true) [0x20; 0x9; 0x3000]) as Hblank
    by (repeat constructor).
  split; [exact Hblank|].
  exact (EntityTextFilter_blank_text_accepts_all (H := asciiUpperCase)
           {| EntityTextFilter.value := [0x20; 0x9; 0x3000] |}
           (entity_of "svc" None) Hblank).
Defined.

Example text_empty_accepts :
  EntityTextFilter.filterEntity (H := asciiUpperCase)
    {| EntityTextFilter.value := lit "" |} (entity_of "svc" None) = Normal true.
Proof. reflexivity. Qed.

(** ** The tag filter *)

(** C5: the tag filter accepts an entity exactly when every configured tag
    is among the entity's tags, an absent tag list counting as empty: with
    [a] and [b] configured, tags [a], [b], [c] are accepted and the lone
    tag [a] is not. *)
Theorem EntityTagFilter_filterEntity_every_tag :
  (∀ (this : EntityTagFilter.t) (entity : Entity),
     EntityTagFilter.filterEntity this entity = true
     ↔ ∀ v, v ∈ this.(EntityTagFilter.values) →
         v ∈ default [] entity.(metadata).(tags))
  ∧ EntityTagFilter.filterEntity
      {| EntityTagFilter.values := [lit "a"; lit "b"] |}
      (entity_of "svc" (Some [lit "a"; lit "b"; lit "c"])) = true
  ∧ EntityTagFilter.filterEntity
      {| EntityTagFilter.values := [lit "a"; lit "b"] |}
      (entity_of "svc" (Some [lit "a"])) = false.
Proof.
  split; [|by split].
  intros this entity. unfold EntityTagFilter.filterEntity.
  rewrite <- Is_true_true, forallb_True, Forall_forall.
  apply forall_proper; intros v. apply forall_proper; intros _.
  by rewrite Is_true_true, Array_includes_elem_of.
Qed.

(** ** The namespace filter *)

(** C2: the catalog filter of the namespace variant has the one key
    [spec.lifecycle], bound to the configured values; it has no key of the
    namespace. *)
Theorem EntityNamespaceFilter_getCatalogFilters_lifecycle_path
    (this : EntityNamespaceFilter.t) :
  EntityNamespaceFilter.getCatalogFilters this !! lit "spec.lifecycle"
  = Some (ManyStrings this.(EntityNamespaceFilter.values))
  ∧ dom (EntityNamespaceFilter.getCatalogFilters this)
    = {[ lit "spec.lifecycle" ]}
  ∧ EntityNamespaceFilter.getCatalogFilters this !! lit "metadata.namespace"
    = None.
Proof.
  unfold EntityNamespaceFilter.getCatalogFilters. split; [|split].
  - apply lookup_singleton_eq.
  - apply dom_singleton_L.
  - by apply lookup_singleton_ne.
Qed.

(** ** The orphan filter *)

Lemma orphan_annotation_lookup entity :
  entity.(metadata).(annotations) ≫= (.!! lit "backstage.io/orphan")
  = orphan_annotation entity.
Proof. unfold orphan_annotation. by destruct (annotations _). Qed.

(** C8: the orphan filter accepts an entity exactly when the entity carries
    the orphan annotation and its value is the configured boolean written
    out, [true] or [false]; an entity without the annotation is rejected
    whatever the boolean. *)
Theorem EntityOrphanFilter_filterEntity_annotation :
  (∀ (this : EntityOrphanFilter.t) (entity : Entity),
     EntityOrphanFilter.filterEntity this entity = true
     ↔ orphan_annotation entity
       = Some (if this.(EntityOrphanFilter.value)
               then lit "true" else lit "false"))
  ∧ (∀ (this : EntityOrphanFilter.t) (entity : Entity),
       orphan_annotation entity = None →
       EntityOrphanFilter.filterEntity this entity = false)
  ∧ EntityOrphanFilter.filterEntity {| EntityOrphanFilter.value := true |}
      (with_annotations {[ lit "backstage.io/orphan" := lit "true" ]}
         (entity_of "svc" None)) = true
  ∧ EntityOrphanFilter.filterEntity {| EntityOrphanFilter.value := true |}
      (with_annotations {[ lit "backstage.io/orphan" := lit "TRUE" ]}
         (entity_of "svc" None)) = false.
Proof.
  assert (∀ this entity,
            EntityOrphanFilter.filterEntity this entity = true
            ↔ orphan_annotation entity
              = Some (Boolean_toString this.(EntityOrphanFilter.value)))
    as Hiff.
  { intros this entity. unfold EntityOrphanFilter.filterEntity, strict_eq.
    rewrite orphan_annotation_lookup, andb_true_iff, bool_decide_eq_true.
    split; [by intros [_ ?]|]. intros Heq. split; [|done].
    rewrite Heq. by apply negb_true_iff, bool_decide_eq_false. }
  split; [exact Hiff|]. split; [|by split; vm_compute].
  intros this entity Hnone. apply not_true_is_false.
  intros Htrue%Hiff. congruence.
Qed.

(** ** The error filter *)

Lemma has_status_items_length entity :
  number_gt (length <$> (entity.(status) ≫= items)) 0 = true
  ↔ has_status_items entity.
Proof.
  unfold has_status_items.
  destruct (status entity) as [[[its|]]|]; simpl.
  - rewrite bool_decide_eq_true. split.
    + intros Hlen. exists {| items := Some its |}, its.
      split; [done|]. split; [done|]. intros ->. simpl in Hlen. lia.
    + intros (st & its' & [= <-] & [= <-] & Hne).
      destruct its; [done | simpl; lia].
  - split; [done|]. by intros (st & its & [= <-] & ? & _).
  - split; [done|]. by intros (st & its & ? & _).
Qed.

(** C9: the error filter accepts an entity exactly when "the entity has a
    non-empty list of status items" is as true as the configured boolean;
    an absent status and an absent or empty list are no errors.  Configured
    [true], it accepts an entity with one status item and rejects one with
    none. *)
Theorem EntityErrorFilter_filterEntity_status_items :
  (∀ (this : EntityErrorFilter.t) (entity : Entity),
     EntityErrorFilter.filterEntity this entity = true
     ↔ (has_status_items entity ↔ this.(EntityErrorFilter.value) = true))
  ∧ EntityErrorFilter.filterEntity {| EntityErrorFilter.value := true |}
      (with_status_items [a_status_item] (entity_of "svc" None)) = true
  ∧ EntityErrorFilter.filterEntity {| EntityErrorFilter.value := true |}
      (with_status_items [] (entity_of "svc" None)) = false
  ∧ EntityErrorFilter.filterEntity {| EntityErrorFilter.value := true |}
      (entity_of "svc" None) = false.
Proof.
  split; [|by repeat split].
  intros this entity. unfold EntityErrorFilter.filterEntity.
  rewrite <- has_status_items_length. cbn [andb].
  rewrite eqb_true_iff.
  destruct (EntityErrorFilter.value this), (number_gt _ 0);
    intuition congruence.
Qed.

(** ** The owner filter *)

(** A [reduce] whose callback appends at most one element per step. *)
Lemma reduce_collect {A B} (f : list B → A → completion (list B))
    (g : A → option B) :
  (∀ acc x, f acc x = Normal (acc ++ option_list (g x))) →
  ∀ a acc, reduce f a acc = Normal (acc ++ omap g a).
Proof.
  intros Hf a. induction a as [|x a IH]; intros acc; cbn.
  - by rewrite app_nil_r.
  - rewrite Hf. cbn. rewrite IH, <- app_assoc. by destruct (g x).
Qed.

(** A [some] whose callback never throws is the boolean [some]. *)
Lemma Array_some_normal {A} (f : A → completion bool) (g : A → bool)
    (a : list A) :
  (∀ x, x ∈ a → f x = Normal (g x)) →
  Array_some f a = Normal (existsb g a).
Proof.
  induction a as [|x a IH]; intros Hf; [done|].
  cbn [Array_some existsb]. rewrite Hf by (by left). cbn.
  destruct (g x); [done|]. apply IH. intros y Hy. apply Hf. by right.
Qed.

Lemma Array_some_app {A} (f : A → completion bool) (a1 a2 : list A) :
  Array_some f (a1 ++ a2)
  = b ← Array_some f a1; if b : bool then Normal true else Array_some f a2.
Proof.
  induction a1 as [|x a1 IH]; [done|].
  cbn [app Array_some]. destruct (f x) as [[|]|e]; cbn; [done| |done].
  apply IH.
Qed.





Section owner_filter.
Context `{CatalogModel}.

(** The [reduce] of the constructor appends, to what it has collected, the
    normal forms of the references that parse. *)
Lemma reduce_collects raw fullRefs :
  reduce
    (λ fullRefs ref,
       try_catch
         (r ← parseEntityRef ref (lit "Group");
          Normal (fullRefs ++ [stringifyEntityRef r]))
         (λ err, Normal fullRefs))
    raw fullRefs
  = Normal (fullRefs ++ omap (normalize (lit "Group")) raw).
Proof.
  apply reduce_collect. intros acc ref. unfold normalize. cbn beta.
  destruct (parseEntityRef ref (lit "Group")) as [r|e]; cbn; [done|].
  by rewrite app_nil_r.
Qed.

Lemma new_normal raw :
  EntityOwnerFilter.new raw
  = Normal
      {| EntityOwnerFilter.values := omap (normalize (lit "Group")) raw |}.
Proof. unfold EntityOwnerFilter.new. by rewrite reduce_collects. Qed.

(** When the lookup returns, the owner filter is the nested [some]. *)
Lemma owner_filterEntity_normal (this : EntityOwnerFilter.t) entity owners :
  getEntityRelations entity RELATION_OWNED_BY = Normal owners →
  EntityOwnerFilter.filterEntity this entity
  = Normal
      (existsb
         (λ v, existsb (λ o, bool_decide (stringifyEntityRef o = v)) owners)
         this.(EntityOwnerFilter.values)).
Proof.
  intros Hlookup. unfold EntityOwnerFilter.filterEntity.
  apply Array_some_normal. intros v _. by rewrite Hlookup.
Qed.


End owner_filter.


(** C3: constructing an owner filter never throws.  Each raw reference is
    normalized with the default kind [Group]; the query value of the filter
    is the list of the normal forms of the references that parse, in their
    order, and a reference that does not parse leaves nothing in it.  With
    the normalizer of the specification, [group:default/team-a] and
    [!!!invalid!!!] give the one entry [group:default/team-a]. *)
Theorem EntityOwnerFilter_new_keeps_parseable :
  (∀ (M : CatalogModel) (raw : list jsstring),
     ∃ this, EntityOwnerFilter.new raw = Normal this
             ∧ EntityOwnerFilter.toQueryValue this
               = omap (normalize (lit "Group")) raw)
  ∧ ∃ this,
      EntityOwnerFilter.new (H := SpecModel.catalogModel)
        [lit "group:default/team-a"; lit "!!!invalid!!!"] = Normal this
      ∧ EntityOwnerFilter.toQueryValue this = [lit "group:default/team-a"]
      ∧ length (EntityOwnerFilter.toQueryValue this) = 1%nat.
Proof.
  split.
  - intros M raw. eexists. split; [apply new_normal | done].
  - eexists. split; [apply new_normal|]. by split; vm_compute.
Qed.



Example owner_other_team_rejected :
  ∃ this,
    EntityOwnerFilter.new (H := SpecModel.catalogModel) [lit "team-b"]
    = Normal this
    ∧ EntityOwnerFilter.filterEntity (H := SpecModel.catalogModel) this
        (with_relations
           [ {| type := lit "ownedBy"; targetRef := team_a |} ]
           (entity_of "svc" None)) = Normal false.
Proof. eexists. split; [apply new_normal | reflexivity]. Qed.

(** ** Filters configured with no value *)

(** C10: made from an empty list of values, the tag filter accepts every
    entity, and the owner, lifecycle and namespace filters reject every
    entity. *)
Theorem empty_values_all_or_nothing `{CatalogModel} (entity : Entity) :
  EntityTagFilter.filterEntity {| EntityTagFilter.values := [] |} entity
  = true
  ∧ (∃ this, EntityOwnerFilter.new [] = Normal this
             ∧ EntityOwnerFilter.filterEntity this entity = Normal false)
  ∧ EntityLifecycleFilter.filterEntity
      {| EntityLifecycleFilter.values := [] |} entity = false
  ∧ EntityNamespaceFilter.filterEntity
      {| EntityNamespaceFilter.values := [] |} entity = false.
Proof.
  split; [done|]. split; [|done].
  eexists. split; [apply new_normal | done].
Qed.

(** ** What a filter can throw *)




Example text_filter_without_optional_fields :
  EntityTextFilter.filterEntity (H := asciiUpperCase)
    {| EntityTextFilter.value := lit "svc" |} (entity_of "" None)
  = Normal false.
Proof. reflexivity. Qed.

(** * Further properties of the filters *)

(** ** The text filter: tokens *)

Lemma split_app_separator sep a c b :
  sep c = true → split sep (a ++ c :: b) = split sep a ++ split sep b.
Proof.
  intros Hc. induction a as [|x a IH].
  - simpl. by rewrite Hc.
  - destruct (sep x) eqn:Hx.
    + simpl. rewrite Hx. by rewrite IH.
    + destruct (split_cons_other sep x a Hx) as (piece & pieces & Ha & ->).
      simpl. rewrite Hx, IH, Ha. done.
Qed.

Lemma split_no_separator sep s :
  Forall (λ c, sep c = false) s → split sep s = [s].
Proof.
  induction 1 as [|c s Hc _ IH]; [done|].
  simpl. by rewrite Hc, IH.
Qed.

Lemma tokens_app_whitespace a c b :
  isWhiteSpace c = true → tokens (a ++ c :: b) = tokens a ++ tokens b.
Proof.
  intros Hc. unfold tokens.
  by rewrite split_app_separator, filter_app.
Qed.

Lemma for_words_app exactMatch partialMatch words1 words2 :
  EntityTextFilter.for_words exactMatch partialMatch (words1 ++ words2)
  = EntityTextFilter.for_words exactMatch partialMatch words1
    && EntityTextFilter.for_words exactMatch partialMatch words2.
Proof.
  induction words1 as [|word words1 IH]; [done|].
  simpl. rewrite IH.
  by destruct (forallb _ exactMatch && forallb _ partialMatch).
Qed.

(** Two word lists with the same elements fare alike in the loop. *)
Lemma for_words_same_elements exactMatch partialMatch words1 words2 :
  (∀ word, word ∈ words1 ↔ word ∈ words2) →
  EntityTextFilter.for_words exactMatch partialMatch words1
  = EntityTextFilter.for_words exactMatch partialMatch words2.
Proof.
  intros Hsame. apply eq_true_iff_eq. rewrite !for_words_true.
  split; intros Hall word Hword; by apply Hall, Hsame.
Qed.

(** X1: a text made of two texts and a whitespace character between them is
    accepted exactly when both texts are: the tokens are a conjunction. *)
Theorem EntityTextFilter_filterEntity_conjunction `{Locale}
    (a b : jsstring) (c : N) (entity : Entity) :
  isWhiteSpace c = true →
  ∃ accepts_a accepts_b,
    EntityTextFilter.filterEntity {| EntityTextFilter.value := a |} entity
    = Normal accepts_a
    ∧ EntityTextFilter.filterEntity {| EntityTextFilter.value := b |} entity
      = Normal accepts_b
    ∧ EntityTextFilter.filterEntity
        {| EntityTextFilter.value := a ++ c :: b |} entity
      = Normal (accepts_a && accepts_b).
Proof.
  intros Hc. rewrite !filterEntity_unfold. cbn [EntityTextFilter.value].
  eexists _, _. split; [done|]. split; [done|].
  by rewrite tokens_app_whitespace, fmap_app, for_words_app.
Qed.

Lemma EntityTextFilter_filterEntity_conjunction_witness :
  ∃ accepts_a accepts_b,
    EntityTextFilter.filterEntity (H := asciiUpperCase)
      {| EntityTextFilter.value := lit "web" |}
      (entity_of "My-Web-Shop" (Some [lit "java"])) = Normal accepts_a
    ∧ EntityTextFilter.filterEntity (H := asciiUpperCase)
        {| EntityTextFilter.value := lit "rust" |}
        (entity_of "My-Web-Shop" (Some [lit "java"])) = Normal accepts_b
    ∧ EntityTextFilter.filterEntity (H := asciiUpperCase)
        {| EntityTextFilter.value := lit "web" ++ 0x20 :: lit "rust" |}
        (entity_of "My-Web-Shop" (Some [lit "java"]))
      = Normal (accepts_a && accepts_b).
Proof.
  exact (EntityTextFilter_filterEntity_conjunction (H := asciiUpperCase)
           (lit "web") (lit "rust") 0x20
           (entity_of "My-Web-Shop" (Some [lit "java"])) eq_refl).
Defined.

(** X2: the answer of the text filter depends on the set of tokens only: their
    order, their repetition and the amount of whitespace between them do not
    count. *)
Theorem EntityTextFilter_filterEntity_token_set `{Locale}
    (text1 text2 : jsstring) (entity : Entity) :
  (∀ token, token ∈ tokens text1 ↔ token ∈ tokens text2) →
  EntityTextFilter.filterEntity {| EntityTextFilter.value := text1 |} entity
  = EntityTextFilter.filterEntity {| EntityTextFilter.value := text2 |} entity.
Proof.
  intros Hsame. rewrite !filterEntity_unfold. cbn [EntityTextFilter.value].
  f_equal. apply for_words_same_elements. intros word.
  rewrite !list_elem_of_fmap. split.
  - intros (token & -> & Htoken). exists token. by rewrite <- Hsame.
  - intros (token & -> & Htoken). exists token. by rewrite Hsame.
Qed.

Lemma EntityTextFilter_filterEntity_token_set_witness :
  (∀ token, token ∈ tokens (lit "shop  web shop ")
            ↔ token ∈ tokens (lit "web shop"))
  ∧ EntityTextFilter.filterEntity (H := asciiUpperCase)
      {| EntityTextFilter.value := lit "shop  web shop " |}
      (entity_of "My-Web-Shop" None)
    = EntityTextFilter.filterEntity (H := asciiUpperCase)
        {| EntityTextFilter.value := lit "web shop" |}
        (entity_of "My-Web-Shop" None).
Proof.
  assert (∀ token, token ∈ tokens (lit "shop  web shop ")
                   ↔ token ∈ tokens (lit "web shop")) as Hsame.
  { intros token.
    change (tokens (lit "shop  web shop "))
      with [lit "shop"; lit "web"; lit "shop"].
    change (tokens (lit "web shop")) with [lit "web"; lit "shop"].
    rewrite !elem_of_cons, elem_of_nil. tauto. }
  split; [exact Hsame|].
  exact (EntityTextFilter_filterEntity_token_set (H := asciiUpperCase)
           (lit "shop  web shop ") (lit "web shop")
           (entity_of "My-Web-Shop" None) Hsame).
Defined.

(** X3: a search for the very name, title or tag of an entity finds it, when that
    string holds no whitespace (it is then a single token, or no token when
    it is empty). *)
Theorem EntityTextFilter_filterEntity_finds_field `{Locale}
    (w : jsstring) (entity : Entity) :
  Forall (λ c, isWhiteSpace c = false) w →
  w ∈ default [] entity.(metadata).(tags)
  ∨ w = entity.(metadata).(name)
  ∨ entity.(metadata).(title) = Some w →
  EntityTextFilter.filterEntity {| EntityTextFilter.value := w |} entity
  = Normal true.
Proof.
  intros Hclean Hfield. rewrite filterEntity_unfold.
  cbn [EntityTextFilter.value]. f_equal. apply for_words_true.
  intros word (token & -> & Htoken)%list_elem_of_fmap.
  unfold tokens in Htoken. rewrite split_no_separator in Htoken by done.
  apply list_elem_of_filter in Htoken as [Hne ->%list_elem_of_singleton].
  destruct Hfield as [Htag | [Hname | Htitle]].
  - left. apply list_elem_of_fmap_2, list_elem_of_filter. by split.
  - right. exists (toLocaleUpperCase w). split; [|by exists [], []; rewrite app_nil_r].
    apply list_elem_of_fmap_2, list_elem_of_filter. split; [done|].
    rewrite <- Hname. by left.
  - right. exists (toLocaleUpperCase w). split; [|by exists [], []; rewrite app_nil_r].
    apply list_elem_of_fmap_2, list_elem_of_filter. split; [done|].
    rewrite Htitle. right. by left.
Qed.

Lemma EntityTextFilter_filterEntity_finds_field_witness :
  EntityTextFilter.filterEntity (H := asciiUpperCase)
    {| EntityTextFilter.value := lit "webhook" |}
    (entity_of "svc" (Some [lit "java"; lit "webhook"])) = Normal true.
Proof.
  refine (EntityTextFilter_filterEntity_finds_field (H := asciiUpperCase)
            (lit "webhook")
            (entity_of "svc" (Some [lit "java"; lit "webhook"])) _ _).
  - repeat constructor.
  - left. right. left.
Defined.

(** ** The tag filter: more tags on the entity, fewer in the filter *)

Lemma tag_filterEntity_true (this : EntityTagFilter.t) entity :
  EntityTagFilter.filterEntity this entity = true
  ↔ ∀ v, v ∈ this.(EntityTagFilter.values) →
      v ∈ default [] entity.(metadata).(tags).
Proof.
  unfold EntityTagFilter.filterEntity.
  rewrite <- Is_true_true, forallb_True, Forall_forall.
  apply forall_proper; intros v. apply forall_proper; intros _.
  by rewrite Is_true_true, Array_includes_elem_of.
Qed.

(** X4: an entity that a tag filter accepts is still accepted when tags are
    added to the entity or taken out of the filter, in any order and with
    any repetition. *)
Theorem EntityTagFilter_filterEntity_monotone
    (this1 this2 : EntityTagFilter.t) (entity1 entity2 : Entity) :
  (∀ v, v ∈ this2.(EntityTagFilter.values) →
        v ∈ this1.(EntityTagFilter.values)) →
  (∀ tag, tag ∈ default [] entity1.(metadata).(tags) →
          tag ∈ default [] entity2.(metadata).(tags)) →
  EntityTagFilter.filterEntity this1 entity1 = true →
  EntityTagFilter.filterEntity this2 entity2 = true.
Proof.
  rewrite !tag_filterEntity_true. intros Hvalues Htags Hall v Hv.
  by apply Htags, Hall, Hvalues.
Qed.

Lemma EntityTagFilter_filterEntity_monotone_witness :
  EntityTagFilter.filterEntity
    {| EntityTagFilter.values := [lit "b"; lit "b"] |}
    (entity_of "svc" (Some [lit "c"; lit "b"; lit "a"])) = true.
Proof.
  refine (EntityTagFilter_filterEntity_monotone
            {| EntityTagFilter.values := [lit "a"; lit "b"] |}
            {| EntityTagFilter.values := [lit "b"; lit "b"] |}
            (entity_of "other" (Some [lit "a"; lit "b"]))
            (entity_of "svc" (Some [lit "c"; lit "b"; lit "a"])) _ _ _).
  - intros v. cbn. rewrite !elem_of_cons, elem_of_nil. tauto.
  - intros tag. cbn. rewrite !elem_of_cons, elem_of_nil. tauto.
  - reflexivity.
Defined.

(** ** The lifecycle and namespace filters *)

(** X5: the lifecycle filter accepts an entity exactly when its [spec] is there
    and holds, under [lifecycle], a string that is one of the configured
    values; no [spec], no [lifecycle] or a [lifecycle] that is no string is
    rejected by every lifecycle filter. *)
Theorem EntityLifecycleFilter_filterEntity_any_value
    (this : EntityLifecycleFilter.t) (entity : Entity) :
  EntityLifecycleFilter.filterEntity this entity = true
  ↔ ∃ sp v, entity.(spec) = Some sp
            ∧ sp !! lit "lifecycle" = Some (JsonString v)
            ∧ v ∈ this.(EntityLifecycleFilter.values).
Proof.
  unfold EntityLifecycleFilter.filterEntity, strict_eq.
  rewrite <- Is_true_true, existb_True, Exists_exists.
  unfold EntityLifecycleFilter.lifecycle. split.
  - intros (v & Hv & Heq%bool_decide_spec).
    destruct (spec entity) as [sp|]; [|done].
    change (Some sp ≫= (.!! lit "lifecycle"))
      with (sp !! lit "lifecycle") in Heq.
    destruct (sp !! lit "lifecycle") as [[| | |s| |]|] eqn:Hl; try done.
    injection Heq as ->. by exists sp, v.
  - intros (sp & v & -> & Hl & Hv). exists v. split; [done|].
    apply bool_decide_spec.
    change (Some sp ≫= (.!! lit "lifecycle")) with (sp !! lit "lifecycle").
    by rewrite Hl.
Qed.

(** X6: the namespace filter accepts an entity exactly when the entity states a
    namespace and that namespace is one of the configured values; an entity
    that states none is rejected by every namespace filter, the one for
    [default] included. *)
Theorem EntityNamespaceFilter_filterEntity_any_value
    (this : EntityNamespaceFilter.t) (entity : Entity) :
  (EntityNamespaceFilter.filterEntity this entity = true
   ↔ ∃ v, entity.(metadata).(namespace) = Some v
          ∧ v ∈ this.(EntityNamespaceFilter.values))
  ∧ (entity.(metadata).(namespace) = None →
     EntityNamespaceFilter.filterEntity this entity = false).
Proof.
  assert (EntityNamespaceFilter.filterEntity this entity = true
          ↔ ∃ v, entity.(metadata).(namespace) = Some v
                 ∧ v ∈ this.(EntityNamespaceFilter.values)) as Hiff.
  { unfold EntityNamespaceFilter.filterEntity, strict_eq.
    rewrite <- Is_true_true, existb_True, Exists_exists. split.
    - intros (v & Hv & Heq%bool_decide_spec). by exists v.
    - intros (v & Heq & Hv). exists v. split; [done|].
      by apply bool_decide_spec. }
  split; [done|]. intros Hnone. apply not_true_is_false.
  intros (v & Hv & _)%Hiff. congruence.
Qed.

(** ** The error and orphan filters: the two booleans *)

(** X7: every entity is accepted by exactly one of the error filters for [true]
    and for [false]. *)
Theorem EntityErrorFilter_filterEntity_complement
    (this : EntityErrorFilter.t) (entity : Entity) :
  EntityErrorFilter.filterEntity
    {| EntityErrorFilter.value := negb this.(EntityErrorFilter.value) |} entity
  = negb (EntityErrorFilter.filterEntity this entity).
Proof.
  unfold EntityErrorFilter.filterEntity. cbn [EntityErrorFilter.value andb].
  by destruct (EntityErrorFilter.value this), (number_gt _ 0).
Qed.

Lemma orphan_filterEntity_true (this : EntityOrphanFilter.t) entity :
  EntityOrphanFilter.filterEntity this entity = true
  ↔ orphan_annotation entity
    = Some (Boolean_toString this.(EntityOrphanFilter.value)).
Proof.
  unfold EntityOrphanFilter.filterEntity, strict_eq.
  rewrite orphan_annotation_lookup, andb_true_iff, bool_decide_eq_true.
  split; [by intros [_ ?]|]. intros Heq. split; [|done].
  rewrite Heq. by apply negb_true_iff, bool_decide_eq_false.
Qed.

(** X8: no entity is accepted by both orphan filters, for [true] and for
    [false]; unlike the error filters they do not cover every entity: both
    reject exactly the entities whose orphan annotation is neither [true]
    nor [false], absent included. *)
Theorem EntityOrphanFilter_filterEntity_exclusive (entity : Entity) :
  ¬ (EntityOrphanFilter.filterEntity
       {| EntityOrphanFilter.value := true |} entity = true
     ∧ EntityOrphanFilter.filterEntity
         {| EntityOrphanFilter.value := false |} entity = true)
  ∧ ((EntityOrphanFilter.filterEntity
        {| EntityOrphanFilter.value := true |} entity = false
      ∧ EntityOrphanFilter.filterEntity
          {| EntityOrphanFilter.value := false |} entity = false)
     ↔ orphan_annotation entity ≠ Some (lit "true")
       ∧ orphan_annotation entity ≠ Some (lit "false")).
Proof.
  rewrite <- !not_true_iff_false, !orphan_filterEntity_true.
  cbn [EntityOrphanFilter.value Boolean_toString]. split; [|done].
  intros [Htrue Hfalse]. rewrite Htrue in Hfalse. by vm_compute in Hfalse.
Qed.

(** X9: the orphan filter accepts on the client what its catalog filter asks of
    the server: an entity is accepted exactly when its orphan annotation is
    the value the catalog filter holds for that annotation. *)
Theorem EntityOrphanFilter_filterEntity_getCatalogFilters
    (this : EntityOrphanFilter.t) (entity : Entity) :
  EntityOrphanFilter.filterEntity this entity = true
  ↔ EntityOrphanFilter.getCatalogFilters this
      !! lit "metadata.annotations.backstage.io/orphan"
    = OneString <$> orphan_annotation entity.
Proof.
  rewrite orphan_filterEntity_true.
  unfold EntityOrphanFilter.getCatalogFilters. rewrite lookup_singleton_eq.
  destruct (orphan_annotation entity) as [o|]; simpl; [|done].
  split; intros [= ->]; done.
Qed.

(** ** The user list filter *)

(** X10: only the exact values [owned] and [starred] consult a predicate: with
    any other value the user list filter accepts every entity, whatever the
    two predicates answer. *)
Theorem UserListFilter_filterEntity_pass_through
    (this : UserListFilter.t) (entity : Entity) :
  this.(UserListFilter.value) ≠ lit "owned" →
  this.(UserListFilter.value) ≠ lit "starred" →
  UserListFilter.filterEntity this entity = true.
Proof.
  intros Howned Hstarred. unfold UserListFilter.filterEntity.
  by rewrite !bool_decide_eq_false_2.
Qed.

(** The value [Owned], with a capital, and predicates that refuse. *)
Lemma UserListFilter_filterEntity_pass_through_witness :
  UserListFilter.filterEntity
    {| UserListFilter.value := lit "Owned";
       UserListFilter.isOwnedEntity := λ _, false;
       UserListFilter.isStarredEntity := λ _, false |}
    (entity_of "svc" None) = true.
Proof.
  refine (UserListFilter_filterEntity_pass_through
            {| UserListFilter.value := lit "Owned";
               UserListFilter.isOwnedEntity := λ _, false;
               UserListFilter.isStarredEntity := λ _, false |}
            (entity_of "svc" None) _ _); by vm_compute.
Defined.

(** ** The type filter *)

(** X11: the types of a type filter are an array whichever way it was made, and
    making a filter again from its query value changes neither its types nor
    its catalog filter, whose [spec.type] holds that array. *)
Theorem EntityTypeFilter_toQueryValue_round_trip (this : EntityTypeFilter.t) :
  EntityTypeFilter.getTypes
    {| EntityTypeFilter.value :=
         ManyStrings (EntityTypeFilter.toQueryValue this) |}
  = EntityTypeFilter.getTypes this
  ∧ EntityTypeFilter.getCatalogFilters
      {| EntityTypeFilter.value :=
           ManyStrings (EntityTypeFilter.toQueryValue this) |}
    = EntityTypeFilter.getCatalogFilters this
  ∧ EntityTypeFilter.getCatalogFilters this !! lit "spec.type"
    = Some (ManyStrings (EntityTypeFilter.toQueryValue this)).
Proof.
  split; [done|]. split; [done|].
  unfold EntityTypeFilter.getCatalogFilters. apply lookup_singleton_eq.
Qed.

(** ** The catalog filters of the variants together *)

(** X12: merged into one mapping, the catalog filters of a kind, a type, a tag,
    an owner, a lifecycle and an orphan filter have six keys; the catalog
    filter of a namespace filter adds none, its one key being that of the
    lifecycle filter. *)
Theorem getCatalogFilters_keys
    (kind_filter : EntityKindFilter.t) (type_filter : EntityTypeFilter.t)
    (tag_filter : EntityTagFilter.t) (owner_filter : EntityOwnerFilter.t)
    (lifecycle_filter : EntityLifecycleFilter.t)
    (namespace_filter : EntityNamespaceFilter.t)
    (orphan_filter : EntityOrphanFilter.t) :
  let merged :=
    EntityKindFilter.getCatalogFilters kind_filter
    ∪ EntityTypeFilter.getCatalogFilters type_filter
    ∪ EntityTagFilter.getCatalogFilters tag_filter
    ∪ EntityOwnerFilter.getCatalogFilters owner_filter
    ∪ EntityLifecycleFilter.getCatalogFilters lifecycle_filter
    ∪ EntityOrphanFilter.getCatalogFilters orphan_filter in
  size merged = 6%nat
  ∧ size (merged ∪ EntityNamespaceFilter.getCatalogFilters namespace_filter)
    = 6%nat
  ∧ dom (EntityNamespaceFilter.getCatalogFilters namespace_filter)
    = dom (EntityLifecycleFilter.getCatalogFilters lifecycle_filter).
Proof.
  intros merged. subst merged.
  rewrite <- !size_dom, !dom_union_L.
  unfold EntityKindFilter.getCatalogFilters,
    EntityTypeFilter.getCatalogFilters, EntityTagFilter.getCatalogFilters,
    EntityOwnerFilter.getCatalogFilters,
    EntityLifecycleFilter.getCatalogFilters,
    EntityOrphanFilter.getCatalogFilters,
    EntityNamespaceFilter.getCatalogFilters.
  rewrite !dom_singleton_L. by vm_compute.
Qed.

(** ** The owner filter: what construction keeps *)

Lemma omap_length_le {A B} (g : A → option B) (l : list A) :
  (length (omap g l) ≤ length l)%nat.
Proof.
  induction l as [|x l IH]; [done|]. cbn. destruct (g x); simpl; lia.
Qed.

Lemma omap_length_all {A B} (g : A → option B) (l : list A) :
  length (omap g l) = length l ↔ ∀ x, x ∈ l → is_Some (g x).
Proof.
  induction l as [|x l IH].
  - split; [|done]. intros _ x Hx. by apply elem_of_nil in Hx.
  - cbn. pose proof (omap_length_le g l) as Hle.
    destruct (g x) as [y|] eqn:Hg; simpl.
    + split.
      * intros [= Hlen]. intros z [->|Hz]%elem_of_cons; [by rewrite Hg|].
        by apply IH.
      * intros Hall. f_equal. apply IH. intros z Hz. apply Hall. by right.
    + split; [lia|]. intros Hall.
      destruct (Hall x) as [y Hy]; [by left | congruence].
Qed.

Section owner_construction.
Context `{CatalogModel}.

Lemma normalize_is_Some ref :
  is_Some (normalize (lit "Group") ref)
  ↔ ∃ r, parseEntityRef ref (lit "Group") = Normal r.
Proof.
  unfold normalize.
  destruct (parseEntityRef ref (lit "Group")) as [r|e].
  - split; [by exists r | by eexists].
  - split; [by intros [? ?] | by intros [? ?]].
Qed.

Lemma omap_normalize_none raw :
  (∀ ref, ref ∈ raw → ∃ e, parseEntityRef ref (lit "Group") = Throw e) →
  omap (normalize (lit "Group")) raw = [].
Proof.
  induction raw as [|ref raw IH]; [done|]. intros Hall.
  cbn [omap list_omap].
  destruct (Hall ref) as [e He]; [by left|].
  unfold normalize at 1. rewrite He. apply IH.
  intros ref' Href'. apply Hall. by right.
Qed.
End owner_construction.

(** X13: construction of an owner filter goes reference by reference: the filter
    made from two lists, one after the other, holds the values of the filter
    made from the first followed by those of the filter made from the second,
    and answers as the first does when that accepts or throws, as the second
    does otherwise: it accepts the entities that either of them accepts. *)
Theorem EntityOwnerFilter_new_app `{CatalogModel} (raw1 raw2 : list jsstring) :
  ∃ this1 this2 this,
    EntityOwnerFilter.new raw1 = Normal this1
    ∧ EntityOwnerFilter.new raw2 = Normal this2
    ∧ EntityOwnerFilter.new (raw1 ++ raw2) = Normal this
    ∧ EntityOwnerFilter.toQueryValue this
      = EntityOwnerFilter.toQueryValue this1
        ++ EntityOwnerFilter.toQueryValue this2
    ∧ (∀ entity,
         EntityOwnerFilter.filterEntity this entity
         = b ← EntityOwnerFilter.filterEntity this1 entity;
           if b : bool then Normal true
           else EntityOwnerFilter.filterEntity this2 entity)
    ∧ ∀ entity b1 b2,
        EntityOwnerFilter.filterEntity this1 entity = Normal b1 →
        EntityOwnerFilter.filterEntity this2 entity = Normal b2 →
        EntityOwnerFilter.filterEntity this entity = Normal (b1 || b2).
Proof.
  rewrite !new_normal. eexists _, _, _.
  split; [done|]. split; [done|]. split; [done|].
  unfold EntityOwnerFilter.toQueryValue, EntityOwnerFilter.filterEntity.
  cbn [EntityOwnerFilter.values]. rewrite omap_app. split; [done|].
  split.
  - intros entity. apply Array_some_app.
  - intros entity b1 b2 Hb1 Hb2. rewrite Array_some_app, Hb1. cbn.
    by destruct b1.
Qed.

(** X14: an owner filter never holds more values than it was given references,
    and it holds as many exactly when every reference parses. *)
Theorem EntityOwnerFilter_new_length `{CatalogModel} (raw : list jsstring) :
  ∃ this,
    EntityOwnerFilter.new raw = Normal this
    ∧ (length (EntityOwnerFilter.toQueryValue this) ≤ length raw)%nat
    ∧ (length (EntityOwnerFilter.toQueryValue this) = length raw
       ↔ ∀ ref, ref ∈ raw →
           ∃ r, parseEntityRef ref (lit "Group") = Normal r).
Proof.
  rewrite new_normal. eexists. split; [done|].
  unfold EntityOwnerFilter.toQueryValue. cbn [EntityOwnerFilter.values].
  split; [apply omap_length_le|]. rewrite omap_length_all.
  apply forall_proper; intros ref. apply forall_proper; intros _.
  apply normalize_is_Some.
Qed.

(** X15: when no reference parses, construction still succeeds, and gives a
    filter with no value that accepts no entity. *)
Theorem EntityOwnerFilter_new_none_parses `{CatalogModel}
    (raw : list jsstring) :
  (∀ ref, ref ∈ raw → ∃ e, parseEntityRef ref (lit "Group") = Throw e) →
  ∃ this,
    EntityOwnerFilter.new raw = Normal this
    ∧ EntityOwnerFilter.toQueryValue this = []
    ∧ ∀ entity, EntityOwnerFilter.filterEntity this entity = Normal false.
Proof.
  intros Hall. rewrite new_normal, omap_normalize_none by done.
  eexists. by repeat split.
Qed.

Lemma EntityOwnerFilter_new_none_parses_witness :
  ∃ this,
    EntityOwnerFilter.new (H := SpecModel.catalogModel)
      [lit "!!!invalid!!!"; lit "a/b/c"; lit ""] = Normal this
    ∧ EntityOwnerFilter.toQueryValue this = []
    ∧ ∀ entity,
        EntityOwnerFilter.filterEntity (H := SpecModel.catalogModel)
          this entity = Normal false.
Proof.
  refine (EntityOwnerFilter_new_none_parses (H := SpecModel.catalogModel)
            [lit "!!!invalid!!!"; lit "a/b/c"; lit ""] _).
  intros ref Href. exists Error.
  repeat (apply elem_of_cons in Href as [-> | Href]; [reflexivity|]).
  by apply elem_of_nil in Href.
Defined.

(** X16: an entity without a relation of the owner type is accepted by no owner
    filter, whatever its values. *)
Theorem EntityOwnerFilter_filterEntity_no_owner `{CatalogModel}
    (this : EntityOwnerFilter.t) (entity : Entity) :
  getEntityRelations entity RELATION_OWNED_BY = Normal [] →
  EntityOwnerFilter.filterEntity this entity = Normal false.
Proof.
  intros Hnone. rewrite (owner_filterEntity_normal _ _ _ Hnone). f_equal.
  by induction (EntityOwnerFilter.values this).
Qed.

Lemma EntityOwnerFilter_filterEntity_no_owner_witness :
  EntityOwnerFilter.filterEntity (H := SpecModel.catalogModel)
    {| EntityOwnerFilter.values := [lit "group:default/team-a"] |}
    (with_relations [ {| type := lit "dependsOn"; targetRef := team_a |} ]
       (entity_of "svc" None)) = Normal false.
Proof.
  exact (EntityOwnerFilter_filterEntity_no_owner (H := SpecModel.catalogModel)
           {| EntityOwnerFilter.values := [lit "group:default/team-a"] |}
           (with_relations
              [ {| type := lit "dependsOn"; targetRef := team_a |} ]
              (entity_of "svc" None)) eq_refl).
Defined.

(** ** The owner filter: through the query value and back *)

Lemma omap_fixed {A} (g : A → option A) (l : list A) :
  (∀ x, x ∈ l → g x = Some x) → omap g l = l.
Proof.
  induction l as [|x l IH]; [done|]. intros Hfix. cbn [omap list_omap].
  rewrite (Hfix x) by (by left). f_equal. apply IH.
  intros y Hy. apply Hfix. by right.
Qed.

(** X17: when a parsed reference, written out and parsed again, is written out
    the same, an owner filter made from the query value of an owner filter is
    that filter: the trip through the query value loses nothing more. *)
Theorem EntityOwnerFilter_toQueryValue_round_trip `{CatalogModel}
    (raw : list jsstring) :
  (∀ ref r, ref ∈ raw → parseEntityRef ref (lit "Group") = Normal r →
     ∃ r', parseEntityRef (stringifyEntityRef r) (lit "Group") = Normal r'
           ∧ stringifyEntityRef r' = stringifyEntityRef r) →
  ∃ this,
    EntityOwnerFilter.new raw = Normal this
    ∧ EntityOwnerFilter.new (EntityOwnerFilter.toQueryValue this)
      = Normal this.
Proof.
  intros Hagain. rewrite new_normal. eexists. split; [done|].
  rewrite new_normal. unfold EntityOwnerFilter.toQueryValue.
  cbn [EntityOwnerFilter.values]. do 2 f_equal. apply omap_fixed.
  intros v (ref & Href & Hv)%list_elem_of_omap. unfold normalize in Hv.
  destruct (parseEntityRef ref (lit "Group")) as [r|e] eqn:Hr; [|done].
  injection Hv as <-. destruct (Hagain ref r Href Hr) as (r' & Hr' & Heq).
  unfold normalize. by rewrite Hr', Heq.
Qed.

(** The normalizer of the specification parses its own canonical strings. *)

Lemma isRefChar_not_colon c : SpecModel.isRefChar c = true → (0x3A =? c) = false.
Proof.
  unfold SpecModel.isRefChar.
  rewrite !orb_true_iff, !andb_true_iff, !N.leb_le, !N.eqb_eq, N.eqb_neq. lia.
Qed.

Lemma isRefChar_not_slash c : SpecModel.isRefChar c = true → (0x2F =? c) = false.
Proof.
  unfold SpecModel.isRefChar.
  rewrite !orb_true_iff, !andb_true_iff, !N.leb_le, !N.eqb_eq, N.eqb_neq. lia.
Qed.

Lemma validPart_spec s :
  SpecModel.validPart s = true
  ↔ s ≠ [] ∧ Forall (λ c, SpecModel.isRefChar c = true) s.
Proof.
  unfold SpecModel.validPart.
  rewrite andb_true_iff, negb_true_iff, bool_decide_eq_false.
  rewrite <- (Is_true_true (forallb _ _)), forallb_True.
  split; intros [Hne Hall]; (split; [done|]);
    eapply Forall_impl; try exact Hall; intros c; apply Is_true_true.
Qed.

Lemma validPart_toLowerCase s :
  SpecModel.validPart s = true →
  SpecModel.validPart (SpecModel.toLowerCase s) = true.
Proof.
  rewrite !validPart_spec. intros [Hne Hall]. split.
  - by destruct s.
  - unfold SpecModel.toLowerCase. apply Forall_fmap.
    eapply Forall_impl; [exact Hall|]. intros c. unfold compose.
    unfold SpecModel.isRefChar. cbn beta.
    destruct ((0x41 <=? c) && (c <=? 0x5A)) eqn:Hupper;
      [|by rewrite Hupper].
    apply andb_true_iff in Hupper. rewrite !N.leb_le in Hupper.
    rewrite !orb_true_iff, !andb_true_iff, !N.leb_le, !N.eqb_eq. lia.
Qed.

Lemma toLowerCase_idemp s :
  SpecModel.toLowerCase (SpecModel.toLowerCase s) = SpecModel.toLowerCase s.
Proof.
  unfold SpecModel.toLowerCase. rewrite <- list_fmap_compose.
  apply list_fmap_ext. intros _ c _. cbn.
  destruct ((0x41 <=? c) && (c <=? 0x5A)) eqn:Hupper; [|by rewrite Hupper].
  apply andb_true_iff in Hupper. rewrite !N.leb_le in Hupper.
  destruct ((0x41 <=? c + 0x20) && (c + 0x20 <=? 0x5A)) eqn:Hlower; [|done].
  apply andb_true_iff in Hlower. rewrite !N.leb_le in Hlower. lia.
Qed.

Lemma makeRef_Normal k ns n r :
  SpecModel.makeRef k ns n = Normal r →
  r = CompoundEntityRef.Build_t k ns n
  ∧ SpecModel.validPart k = true ∧ SpecModel.validPart ns = true
  ∧ SpecModel.validPart n = true.
Proof.
  unfold SpecModel.makeRef.
  destruct (SpecModel.validPart k), (SpecModel.validPart ns),
    (SpecModel.validPart n); simpl; try done.
  by intros [= <-].
Qed.

Lemma parseEntityRef_valid ref defaultKind r :
  SpecModel.parseEntityRef ref defaultKind = Normal r →
  SpecModel.validPart r.(CompoundEntityRef.kind) = true
  ∧ SpecModel.validPart r.(CompoundEntityRef.namespace) = true
  ∧ SpecModel.validPart r.(CompoundEntityRef.name) = true.
Proof.
  unfold SpecModel.parseEntityRef. intros Hparse.
  repeat case_match; try done;
    by apply makeRef_Normal in Hparse as (-> & ? & ? & ?).
Qed.

Lemma parseEntityRef_canonical k ns n defaultKind :
  SpecModel.validPart k = true → SpecModel.validPart ns = true →
  SpecModel.validPart n = true →
  SpecModel.parseEntityRef (k ++ lit ":" ++ ns ++ lit "/" ++ n) defaultKind
  = Normal (CompoundEntityRef.Build_t k ns n).
Proof.
  intros Hk Hns Hn.
  pose proof Hk as [_ Hk']%validPart_spec.
  pose proof Hns as [_ Hns']%validPart_spec.
  pose proof Hn as [_ Hn']%validPart_spec.
  unfold SpecModel.parseEntityRef.
  change (k ++ lit ":" ++ ns ++ lit "/" ++ n)
    with (k ++ 0x3A :: (ns ++ 0x2F :: n)).
  rewrite split_app_separator by done.
  rewrite (split_no_separator _ k)
    by (eapply Forall_impl; [exact Hk'|]; apply isRefChar_not_colon).
  rewrite (split_no_separator _ (ns ++ 0x2F :: n)).
  2:{ apply Forall_app. split; [|constructor; [done|]];
        (eapply Forall_impl; [eassumption|]; apply isRefChar_not_colon). }
  cbn [app]. rewrite split_app_separator by done.
  rewrite !split_no_separator
    by (eapply Forall_impl; [eassumption|]; apply isRefChar_not_slash).
  cbn [app]. unfold SpecModel.makeRef. by rewrite Hk, Hns, Hn.
Qed.

Lemma spec_parse_stringify ref r :
  SpecModel.parseEntityRef ref (lit "Group") = Normal r →
  ∃ r', SpecModel.parseEntityRef (SpecModel.stringifyEntityRef r) (lit "Group")
        = Normal r'
        ∧ SpecModel.stringifyEntityRef r' = SpecModel.stringifyEntityRef r.
Proof.
  intros (Hk & Hns & Hn)%parseEntityRef_valid.
  unfold SpecModel.stringifyEntityRef at 1. eexists. split.
  - apply parseEntityRef_canonical; by apply validPart_toLowerCase.
  - unfold SpecModel.stringifyEntityRef. cbn [CompoundEntityRef.kind
      CompoundEntityRef.namespace CompoundEntityRef.name].
    by rewrite !toLowerCase_idemp.
Qed.

Lemma EntityOwnerFilter_toQueryValue_round_trip_witness :
  ∃ this,
    EntityOwnerFilter.new (H := SpecModel.catalogModel)
      [lit "team-a"; lit "!!!invalid!!!"; lit "User:Dev/Alice"] = Normal this
    ∧ EntityOwnerFilter.new (H := SpecModel.catalogModel)
        (EntityOwnerFilter.toQueryValue this) = Normal this.
Proof.
  refine (EntityOwnerFilter_toQueryValue_round_trip
            (H := SpecModel.catalogModel)
            [lit "team-a"; lit "!!!invalid!!!"; lit "User:Dev/Alice"] _).
  intros ref r _. apply spec_parse_stringify.
Defined.

Example owner_round_trip_values :
  ∃ this,
    EntityOwnerFilter.new (H := SpecModel.catalogModel)
      [lit "team-a"; lit "!!!invalid!!!"; lit "User:Dev/Alice"] = Normal this
    ∧ EntityOwnerFilter.toQueryValue this
      = [lit "group:default/team-a"; lit "user:dev/alice"].
Proof. eexists. split; [apply new_normal | reflexivity]. Qed.

(** ** The text filter: what it reads *)

(** X18: the text filter reads the name, the title and the tags of an entity and
    nothing else: two entities that agree on these get the same answer,
    however their kind, namespace, annotations, [spec], relations or status
    differ. *)
Theorem EntityTextFilter_filterEntity_reads_name_title_tags `{Locale}
    (this : EntityTextFilter.t) (entity1 entity2 : Entity) :
  entity1.(metadata).(name) = entity2.(metadata).(name) →
  entity1.(metadata).(title) = entity2.(metadata).(title) →
  entity1.(metadata).(tags) = entity2.(metadata).(tags) →
  EntityTextFilter.filterEntity this entity1
  = EntityTextFilter.filterEntity this entity2.
Proof.
  intros Hname Htitle Htags.
  by rewrite !filterEntity_unfold, Hname, Htitle, Htags.
Qed.

(** A search for [service] on two entities named [svc], one of which has the
    word in its [spec] and in an annotation. *)
Lemma EntityTextFilter_filterEntity_reads_name_title_tags_witness :
  EntityTextFilter.filterEntity (H := asciiUpperCase)
    {| EntityTextFilter.value := lit "service" |}
    {| apiVersion := lit "backstage.io/v1alpha1";
       kind := lit "API";
       metadata := {|
         name := lit "svc"; namespace := Some (lit "service");
         title := None; tags := None;
         annotations := Some {[ lit "description" := lit "service" ]} |};
       spec := Some {[ lit "type" := JsonString (lit "service") ]};
       relations := Some [];
       status := None |}
  = EntityTextFilter.filterEntity (H := asciiUpperCase)
      {| EntityTextFilter.value := lit "service" |} (entity_of "svc" None).
Proof.
  exact (EntityTextFilter_filterEntity_reads_name_title_tags
           (H := asciiUpperCase)
           {| EntityTextFilter.value := lit "service" |}
           {| apiVersion := lit "backstage.io/v1alpha1";
              kind := lit "API";
              metadata := {|
                name := lit "svc"; namespace := Some (lit "service");
                title := None; tags := None;
                annotations := Some {[ lit "description" := lit "service" ]} |};
              spec := Some {[ lit "type" := JsonString (lit "service") ]};
              relations := Some [];
              status := None |}
           (entity_of "svc" None) eq_refl eq_refl eq_refl).
Defined.
